(** * The edge gateway of [src/worker/index-fixed.ts]

    The worker's [fetch] handler classifies a request by its URL path,
    forwards it either to the static-asset binding [env.ASSETS] or to the
    sub-application built by [createApp], and rewrites the
    [Content-Security-Policy] header of HTML asset responses.

    The handler is embedded as a computation over an explicit store of
    [Response] objects and a trace of the calls it makes, so that statements
    about object identity ("the same response, no copy") and about side
    effects ("one downstream call") can be made and proved. *)

From Stdlib Require Import ZArith Ascii String.
From stdpp Require Import base option list strings gmap.

Local Open Scope string_scope.
Local Open Scope Z_scope.

(** ** JavaScript strings

    Only the two [String.prototype] methods the handler calls are modelled.
    Both compare code units exactly: neither folds letter case. *)

Module JsString.

(** [s.startsWith(p)] *)
Definition startsWith (p s : string) : bool := String.prefix p s.

(** [s.includes(p)]: [p] occurs in [s] at some position. *)
Fixpoint includes (p s : string) : bool :=
  String.prefix p s ||
  match s with
  | EmptyString => false
  | String _ s' => includes p s'
  end.

(** ASCII lower-casing, as the platform applies it to header names. *)
Definition lower_ascii (c : ascii) : ascii :=
  let n := nat_of_ascii c in
  if ((65 <=? n)%nat && (n <=? 90)%nat)%bool then ascii_of_nat (n + 32) else c.

Fixpoint toLowerCase (s : string) : string :=
  match s with
  | EmptyString => EmptyString
  | String c s' => String (lower_ascii c) (toLowerCase s')
  end.

(** The spec's wording for the HTML test, "a case-insensitive substring
    match": both sides are lower-cased before the search.  The handler
    does not call this; it is here to be compared with what it does call. *)
Definition includes_ignoring_case (p s : string) : bool :=
  includes (toLowerCase p) (toLowerCase s).

Fixpoint join (sep : string) (l : list string) : string :=
  match l with
  | [] => ""
  | [x] => x
  | x :: l' => x +:+ sep +:+ join sep l'
  end.

End JsString.

(** ** Header lists

    A [Headers] object holds a list of name/value pairs.  Names are matched
    without regard to ASCII letter case; values are kept as given. *)

Module Headers.
Import JsString.

Abbreviation t := (list (string * string)).

Definition same_name (a b : string) : bool :=
  String.eqb (toLowerCase a) (toLowerCase b).

Definition values (name : string) (h : t) : list string :=
  snd <$> filter (λ kv, same_name name kv.1 = true) h.

Definition has (name : string) (h : t) : bool :=
  existsb (λ kv, same_name name kv.1) h.

(** [h.get(name)]: [null] when no header has that name, otherwise the
    values of all headers of that name joined by a comma and a space. *)
Definition get (name : string) (h : t) : option string :=
  match values name h with
  | [] => None
  | vs => Some (join ", " vs)
  end.

Definition append (name value : string) (h : t) : t := (h ++ [(name, value)])%list.

Definition remove (name : string) (h : t) : t :=
  filter (λ kv, same_name name kv.1 = false) h.

(** [h.set(name, value)]: the first header of that name takes the new
    value and every further one is removed; when there is none the pair is
    appended. *)
Fixpoint set (name value : string) (h : t) : t :=
  match h with
  | [] => [(name, value)]
  | (k, v) :: h' =>
      if same_name name k then (k, value) :: remove name h'
      else (k, v) :: set name value h'
  end.

End Headers.

(** ** Completions and promises

    A call either completes normally or throws.  A promise is described by
    the state it eventually reaches; [Unsettled] is a promise that never
    settles.  [awaitable] is the TypeScript type [T | Promise<T>]. *)

Inductive JsError := js_error (name message : string).

Inductive completion (A : Type) :=
| Normal (a : A)
| Throw (e : JsError).

Inductive promise (A : Type) :=
| Fulfilled (a : A)
| Rejected (e : JsError)
| Unsettled.

Inductive awaitable (A : Type) :=
| Plain (a : A)
| Thenable (p : promise A).

Arguments Normal {A} a.
Arguments Throw {A} e.
Arguments Fulfilled {A} a.
Arguments Rejected {A} e.
Arguments Unsettled {A}.
Arguments Plain {A} a.
Arguments Thenable {A} p.

(** ** Platform objects *)

Inductive ReadableStream := stream_of (bytes : string).

Record Request := {
  method : string;
  url : string;
  request_headers : Headers.t;
  request_body : option ReadableStream
}.

Record Response := {
  status : Z;
  statusText : string;
  headers : Headers.t;
  body : option ReadableStream
}.

Record URL := { href : string; pathname : string }.

Inductive ExecutionContext := execution_context (id : nat).

(** The collaborators.  [env.ASSETS] is a [Fetcher]; the sub-application
    is the object [createApp(env)] returns (Hono's [fetch] has the result
    type [Response | Promise<Response>]).  Each is given by what a call
    produces; a collaborator with state of its own is a different value of
    these types at each invocation of the gateway. *)

Record Fetcher := { Fetcher_fetch : Request → completion (promise Response) }.

Record Env := { ASSETS : Fetcher }.

Record App := {
  App_fetch : Request → Env → ExecutionContext → completion (awaitable Response)
}.

(** ** The store and the trace

    [Response] objects live in a store and are handled by reference, as in
    JavaScript.  The trace lists, in order, the outward calls made. *)

Inductive Event :=
| ASSETS_fetch_called (request : Request)
| createApp_called
| App_fetch_called (request : Request)
| console_error_called (label : string) (error : JsError).

Record World := {
  heap : gmap nat Response;
  trace : list Event
}.

#[global] Instance Response_inhabited : Inhabited Response :=
  populate {| status := 0; statusText := ""; headers := []; body := None |}.

(** ** Computations

    The body of an [async] function runs until it returns, throws, or
    stops for good at an [await] on a promise that never settles. *)

Inductive flow (A : Type) :=
| Ret (a : A)
| Thr (e : JsError)
| Suspended.

Arguments Ret {A} a.
Arguments Thr {A} e.
Arguments Suspended {A}.

Definition Run (A : Type) : Type := World → flow A * World.

#[global] Instance Run_ret : MRet Run := λ A a w, (Ret a, w).

#[global] Instance Run_bind : MBind Run := λ A B f m w,
  match m w with
  | (Ret a, w') => f a w'
  | (Thr e, w') => (Thr e, w')
  | (Suspended, w') => (Suspended, w')
  end.

Definition eval {A} (c : completion A) : Run A := λ w,
  match c with
  | Normal a => (Ret a, w)
  | Throw e => (Thr e, w)
  end.

(** [try { body } catch (error) { handler }] *)
Definition try_catch {A} (body : Run A) (handler : JsError → Run A) : Run A := λ w,
  match body w with
  | (Thr e, w') => handler e w'
  | r => r
  end.

(** [await p] *)
Definition await {A} (p : promise A) : Run A := λ w,
  match p with
  | Fulfilled a => (Ret a, w)
  | Rejected e => (Thr e, w)
  | Unsettled => (Suspended, w)
  end.

Definition emit (ev : Event) : Run unit := λ w,
  (Ret (), {| heap := heap w; trace := trace w ++ [ev] |}).

(** A new object is placed at a location the store does not use yet. *)
Definition alloc (r : Response) : Run nat := λ w,
  let l := fresh (dom (heap w)) in
  (Ret l, {| heap := <[l := r]> (heap w); trace := trace w |}).

(** Reading through a reference.  References never dangle in JavaScript;
    the default of the total lookup is never reached from [alloc]ed
    locations. *)
Definition read (l : nat) : Run Response := λ w, (Ret (heap w !!! l), w).

(** [async function]: the promise the caller receives.  Returning a plain
    value fulfils it; returning a promise makes it follow that promise;
    a throw rejects it; a body that never resumes leaves it unsettled. *)
Definition async {A} (m : Run (awaitable A)) (w : World) : promise A * World :=
  match m w with
  | (Ret (Plain a), w') => (Fulfilled a, w')
  | (Ret (Thenable p), w') => (p, w')
  | (Thr e, w') => (Rejected e, w')
  | (Suspended, w') => (Unsettled, w')
  end.

(** ** The [Response] constructor and [Headers.prototype.set] *)

Inductive BodyInit :=
| from_stream (s : option ReadableStream)
| from_string (s : string).

Record ResponseInit := {
  init_status : option Z;
  init_statusText : option string;
  init_headers : option Headers.t
}.

(** Body extraction (Fetch standard): a stream is taken as it is and has no
    type; a string becomes a stream of its UTF-8 bytes, of type
    [text/plain;charset=UTF-8]. *)
Definition extract (b : BodyInit) : option ReadableStream * option string :=
  match b with
  | from_stream s => (s, None)
  | from_string s => (Some (stream_of s), Some "text/plain;charset=UTF-8")
  end.

(** [new Response(body, init)] (Fetch standard, "initialize a response"):
    status 200 unless [init] gives one; the header list is filled from a
    copy of [init.headers]; when the body has a type and the list has no
    [Content-Type], that header is appended.  The copy is taken pair by
    pair; the platform may reorder it or merge the values of one name, which
    [get] cannot tell apart.

    The status text of a response whose [init] names none is the
    platform's choice, [reason_phrase]: the Fetch standard leaves it empty,
    the Workers runtime fills in the reason phrase of the status code.

    The constructor also throws, a [RangeError] on a status outside 200 to
    599 and a [TypeError] on a body that has been read or is locked.  Streams
    carry no such state here and the checks are left out: what is proved
    about a response built from another one holds for a status and a body
    the constructor accepts. *)
Definition make_Response (reason_phrase : Z → string)
    (b : BodyInit) (init : ResponseInit) : Response :=
  let h := default [] (init_headers init) in
  let status := default 200 (init_status init) in
  {| status := status;
     statusText := default (reason_phrase status) (init_statusText init);
     headers :=
       match (extract b).2 with
       | Some type =>
           if Headers.has "Content-Type" h then h
           else Headers.append "content-type" type h
       | None => h
       end;
     body := (extract b).1 |}.

Definition new_Response (reason_phrase : Z → string)
    (b : BodyInit) (init : ResponseInit) : Run nat :=
  alloc (make_Response reason_phrase b init).

Definition with_headers (f : Headers.t → Headers.t) (r : Response) : Response :=
  {| status := status r; statusText := statusText r;
     headers := f (headers r); body := body r |}.

(** [r.headers.set(name, value)], an update in place of the object at [l]. *)
Definition Headers_set (l : nat) (name value : string) : Run unit := λ w,
  (Ret (), {| heap := alter (with_headers (Headers.set name value)) l (heap w);
              trace := trace w |}).

(** [console.error(label, error)] *)
Definition console_error (label : string) (error : JsError) : Run unit :=
  emit (console_error_called label error).

(** The response a collaborator's promise settles with is a new object of
    the store. *)
Definition settle_in_store (p : promise Response) : Run (promise nat) :=
  match p with
  | Fulfilled r => l ← alloc r; mret (Fulfilled l)
  | Rejected e => mret (Rejected e)
  | Unsettled => mret Unsettled
  end.

Definition hand_out (a : awaitable Response) : Run (awaitable nat) :=
  match a with
  | Plain r => l ← alloc r; mret (Plain l)
  | Thenable p => q ← settle_in_store p; mret (Thenable q)
  end.

(** [env.ASSETS.fetch(request)] *)
Definition call_ASSETS_fetch (env : Env) (request : Request) : Run (promise nat) :=
  _ ← emit (ASSETS_fetch_called request);
  p ← eval (Fetcher_fetch (ASSETS env) request);
  settle_in_store p.

(** [app.fetch(request, env, ctx)] *)
Definition call_App_fetch (app : App) (request : Request) (env : Env)
    (ctx : ExecutionContext) : Run (awaitable nat) :=
  _ ← emit (App_fetch_called request);
  a ← eval (App_fetch app request env ctx);
  hand_out a.

(** ** The worker *)

Section worker.

(** [new URL(s)], a platform constructor; it throws on a string that is
    not a URL. *)
Variable new_URL : string → completion URL.

(** [createApp], imported from [./app]. *)
Variable createApp : Env → completion App.

(** The status text the platform gives a response built without one. *)
Variable reason_phrase : Z → string.

Definition call_createApp (env : Env) : Run App :=
  _ ← emit createApp_called;
  eval (createApp env).

Definition CSP_NAME : string := "Content-Security-Policy".

Definition CSP_VALUE : string :=
  "default-src 'self'; " +:+
  "script-src 'self' 'unsafe-eval' 'unsafe-inline' data: blob:; " +:+
  "style-src 'self' 'unsafe-inline' data:; " +:+
  "worker-src 'self' blob:; " +:+
  "child-src 'self' blob:; " +:+
  "font-src 'self' data:; " +:+
  "img-src 'self' data: blob:; " +:+
  "connect-src 'self' ws: wss: https:;".

(** [x?.includes(p)] as a condition: [undefined] is falsy. *)
Definition optional_includes (p : string) (x : option string) : bool :=
  match x with
  | Some s => JsString.includes p s
  | None => false
  end.

(** The body of [worker.fetch]. *)
Definition fetch_body (request : Request) (env : Env) (ctx : ExecutionContext)
    : Run (awaitable nat) :=
  url ← eval (new_URL (url request));
  let pathname := pathname url in
  if negb (JsString.startsWith "/api/" pathname) then
    p ← call_ASSETS_fetch env request;
    response ← await p;
    r ← read response;
    if optional_includes "text/html" (Headers.get "content-type" (headers r)) then
      newResponse ← new_Response reason_phrase (from_stream (body r))
        {| init_status := Some (status r);
           init_statusText := Some (statusText r);
           init_headers := Some (headers r) |};
      _ ← Headers_set newResponse CSP_NAME CSP_VALUE;
      mret (Plain newResponse)
    else
      mret (Plain response)
  else
    try_catch
      (app ← call_createApp env;
       call_App_fetch app request env ctx)
      (λ error,
        _ ← console_error "API request failed:" error;
        l ← new_Response reason_phrase (from_string "API Error")
          {| init_status := Some 500;
             init_statusText := None;
             init_headers := None |};
        mret (Plain l)).

(** [worker.fetch], the spec's [handle()]. *)
Definition worker_fetch (request : Request) (env : Env) (ctx : ExecutionContext)
    : World → promise nat * World :=
  async (fetch_body request env ctx).

End worker.

(** ** What a caller can observe of an invocation *)

Definition is_ASSETS_call (ev : Event) : bool :=
  match ev with ASSETS_fetch_called _ => true | _ => false end.

Definition is_App_call (ev : Event) : bool :=
  match ev with createApp_called | App_fetch_called _ => true | _ => false end.

Definition is_console_error (ev : Event) : bool :=
  match ev with console_error_called _ _ => true | _ => false end.

(** The events an invocation added to the trace it started with. *)
Definition emitted (w0 w' : World) : list Event :=
  drop (length (trace w0)) (trace w').

(** The promise's outcome, with the response object read out of the store. *)
Definition settled_with (w : World) (p : promise nat) : promise (option Response) :=
  match p with
  | Fulfilled l => Fulfilled (heap w !! l)
  | Rejected e => Rejected e
  | Unsettled => Unsettled
  end.

(** What an invocation started in [w0] shows to the outside: how its promise
    settles and which calls it made.  Locations are left out: they are not
    observable, only the objects behind them are. *)
Definition observation (w0 : World) (out : promise nat * World)
    : promise (option Response) * list Event :=
  (settled_with out.2 out.1, emitted w0 out.2).

(** ** The sub-application seen as one collaborator

    The spec speaks of a single [dispatch(request, env, ctx)]; in the source
    it is the two calls [createApp(env)] and [app.fetch(request, env, ctx)]
    of the [try] block.  Either may throw. *)

Definition dispatch (createApp : Env → completion App)
    (request : Request) (env : Env) (ctx : ExecutionContext)
    : completion (awaitable Response) :=
  match createApp env with
  | Throw e => Throw e
  | Normal app => App_fetch app request env ctx
  end.

(** The same, keeping apart which of the two calls threw. *)
Definition dispatch_steps (createApp : Env → completion App)
    (request : Request) (env : Env) (ctx : ExecutionContext)
    : completion (completion (awaitable Response)) :=
  match createApp env with
  | Throw e => Throw e
  | Normal app => Normal (App_fetch app request env ctx)
  end.

(** The sub-application returned a response, at once or through a promise
    that fulfils, or threw before returning anything. *)
Definition returns_or_throws (c : completion (awaitable Response)) : bool :=
  match c with
  | Throw _ | Normal (Plain _) | Normal (Thenable (Fulfilled _)) => true
  | Normal (Thenable (Rejected _)) | Normal (Thenable Unsettled) => false
  end.

(** ** Sample inputs

    A stand-in for the platform's URL parser, enough for [https] URLs
    without userinfo or dot segments: the path runs from the first slash
    after the authority to the query or fragment. *)

Fixpoint from_first_slash (s : string) : string :=
  match s with
  | EmptyString => EmptyString
  | String c s' => if Ascii.eqb c "/" then s else from_first_slash s'
  end.

Fixpoint up_to_query (s : string) : string :=
  match s with
  | EmptyString => EmptyString
  | String c s' =>
      if (Ascii.eqb c "?" || Ascii.eqb c "#")%bool then EmptyString
      else String c (up_to_query s')
  end.

Definition sample_new_URL (s : string) : completion URL :=
  if String.prefix "https://" s then
    let p := up_to_query (from_first_slash (String.substring 8 (String.length s) s)) in
    Normal {| href := s; pathname := if String.eqb p "" then "/" else p |}
  else Throw (js_error "TypeError" "Invalid URL").

(** A stand-in for the platform's default status text, as the Workers
    runtime gives it for the one status the handler builds a response
    with. *)
Definition sample_reason_phrase (status : Z) : string :=
  if status =? 500 then "Internal Server Error" else "".

Definition sample_request (u : string) : Request :=
  {| method := "GET"; url := u; request_headers := []; request_body := None |}.

Definition sample_asset (content_type : string) : Response :=
  {| status := 200; statusText := "OK";
     headers := [("Content-Type", content_type); ("ETag", "W/1")];
     body := Some (stream_of "<html>...") |}.

Definition sample_script : Response :=
  {| status := 200; statusText := "OK";
     headers := [("content-type", "application/javascript")];
     body := Some (stream_of "export {}") |}.

Definition sample_env (r : Response) : Env :=
  {| ASSETS := {| Fetcher_fetch := λ _, Normal (Fulfilled r) |} |}.

Definition sample_json : Response :=
  {| status := 201; statusText := "Created";
     headers := [("content-type", "application/json")];
     body := Some (stream_of "{}") |}.

Definition boom : JsError := js_error "Error" "boom".

(** Sub-applications: one that answers, one whose [fetch] throws, one whose
    [fetch] returns a promise that rejects. *)
Definition sample_app : App :=
  {| App_fetch := λ _ _ _, Normal (Thenable (Fulfilled sample_json)) |}.

Definition throwing_app : App :=
  {| App_fetch := λ _ _ _, Throw boom |}.

Definition rejecting_app : App :=
  {| App_fetch := λ _ _ _, Normal (Thenable (Rejected boom)) |}.

Definition sample_ctx : ExecutionContext := execution_context 0.

Definition empty_world : World := {| heap := ∅; trace := [] |}.

(** * Facts about header lists *)

Module HeadersFacts.
Import JsString Headers.

Lemma same_name_true a b :
  same_name a b = true ↔ toLowerCase a = toLowerCase b.
Proof. unfold same_name. apply String.eqb_eq. Qed.

Lemma same_name_false a b :
  same_name a b = false ↔ toLowerCase a ≠ toLowerCase b.
Proof. unfold same_name. apply String.eqb_neq. Qed.

Lemma same_name_refl a : same_name a a = true.
Proof. by apply same_name_true. Qed.

(** A header that carries the name being set does not carry any name
    that differs from it. *)
Lemma same_name_other n name k :
  same_name n name = false → same_name name k = true → same_name n k = false.
Proof.
  rewrite !same_name_false, same_name_true. congruence.
Qed.

Lemma values_cons n k v h :
  values n ((k, v) :: h) =
  if same_name n k then v :: values n h else values n h.
Proof.
  unfold values. rewrite filter_cons. simpl.
  destruct (same_name n k); by case_decide.
Qed.

Lemma remove_cons name k v h :
  remove name ((k, v) :: h) =
  if same_name name k then remove name h else (k, v) :: remove name h.
Proof.
  unfold remove. rewrite filter_cons. simpl.
  destruct (same_name name k); by case_decide.
Qed.

Lemma values_remove_same name h : values name (remove name h) = [].
Proof.
  induction h as [|[k v] h IH]; [done|].
  rewrite remove_cons. destruct (same_name name k) eqn:E; [done|].
  by rewrite values_cons, E.
Qed.

Lemma values_remove_other n name h :
  same_name n name = false → values n (remove name h) = values n h.
Proof.
  intros Hn. induction h as [|[k v] h IH]; [done|].
  rewrite remove_cons, !values_cons.
  destruct (same_name name k) eqn:E.
  - by rewrite (same_name_other _ _ _ Hn E).
  - rewrite values_cons. by rewrite IH.
Qed.

Lemma values_set_same name v h : values name (set name v h) = [v].
Proof.
  induction h as [|[k v'] h IH]; simpl.
  - by rewrite values_cons, same_name_refl.
  - destruct (same_name name k) eqn:E.
    + by rewrite values_cons, E, values_remove_same.
    + by rewrite values_cons, E.
Qed.

Lemma values_set_other n name v h :
  same_name n name = false → values n (set name v h) = values n h.
Proof.
  intros Hn. induction h as [|[k v'] h IH]; simpl.
  - rewrite values_cons. by rewrite Hn.
  - destruct (same_name name k) eqn:E.
    + rewrite !values_cons, (same_name_other _ _ _ Hn E).
      by apply values_remove_other.
    + rewrite !values_cons. by rewrite IH.
Qed.

(** After [set], [get] of that name gives exactly the new value. *)
Lemma get_set_same name v h : get name (set name v h) = Some v.
Proof. unfold get. by rewrite values_set_same. Qed.

(** [set] leaves what [get] gives for every other name as it was. *)
Lemma get_set_other n name v h :
  same_name n name = false → get n (set name v h) = get n h.
Proof. intros Hn. unfold get. by rewrite values_set_other. Qed.

(** The headers of other names are the same pairs in the same order. *)
Lemma remove_set name v h : remove name (set name v h) = remove name h.
Proof.
  induction h as [|[k v'] h IH]; simpl.
  - by rewrite remove_cons, same_name_refl.
  - destruct (same_name name k) eqn:E.
    + rewrite !remove_cons, E. unfold remove.
      rewrite list_filter_filter. apply list_filter_iff. tauto.
    + rewrite !remove_cons, E. by rewrite IH.
Qed.

Lemma get_None_values n h : get n h = None ↔ values n h = [].
Proof. unfold get. destruct (values n h); naive_solver. Qed.

End HeadersFacts.

(** * Facts about the store *)

Lemma fresh_not_in_heap (h : gmap nat Response) : h !! fresh (dom h) = None.
Proof. apply not_elem_of_dom, is_fresh. Qed.

Lemma fresh_insert_ne (h : gmap nat Response) r :
  fresh (dom (<[fresh (dom h) := r]> h)) ≠ fresh (dom h).
Proof.
  intros E. pose proof (is_fresh (dom (<[fresh (dom h) := r]> h))) as Hf.
  rewrite E in Hf. apply Hf. rewrite dom_insert_L. set_solver.
Qed.

(** * The handler, path by path

    One equation per path through [worker.fetch]: the promise it returns
    and the world it leaves. *)

Section paths.

Variable new_URL : string → completion URL.
Variable createApp : Env → completion App.
Variable reason_phrase : Z → string.
Variables (request : Request) (env : Env) (ctx : ExecutionContext) (w : World).

Local Abbreviation handle := (worker_fetch new_URL createApp reason_phrase).

Local Ltac run :=
  unfold worker_fetch, async, fetch_body, call_ASSETS_fetch, call_createApp,
    call_App_fetch, try_catch, console_error, new_Response, Headers_set;
  unfold mbind, mret, Run_bind, Run_ret, eval, emit, alloc, read, await,
    settle_in_store, hand_out; simpl.

Lemma run_bad_URL e :
  new_URL (url request) = Throw e →
  handle request env ctx w = (Rejected e, w).
Proof. intros Hu. run. by rewrite Hu. Qed.

Section asset.

Variable u : URL.
Hypothesis Hu : new_URL (url request) = Normal u.
Hypothesis Hpath : JsString.startsWith "/api/" (pathname u) = false.

Let called : list Event := trace w ++ [ASSETS_fetch_called request].

Lemma run_asset_throw e :
  Fetcher_fetch (ASSETS env) request = Throw e →
  handle request env ctx w = (Rejected e, {| heap := heap w; trace := called |}).
Proof. intros Ha. run. rewrite Hu. simpl. rewrite Hpath. simpl. by rewrite Ha. Qed.

Lemma run_asset_rejected e :
  Fetcher_fetch (ASSETS env) request = Normal (Rejected e) →
  handle request env ctx w = (Rejected e, {| heap := heap w; trace := called |}).
Proof. intros Ha. run. rewrite Hu. simpl. rewrite Hpath. simpl. by rewrite Ha. Qed.

Lemma run_asset_unsettled :
  Fetcher_fetch (ASSETS env) request = Normal Unsettled →
  handle request env ctx w = (Unsettled, {| heap := heap w; trace := called |}).
Proof. intros Ha. run. rewrite Hu. simpl. rewrite Hpath. simpl. by rewrite Ha. Qed.

Lemma run_asset_passthrough r :
  Fetcher_fetch (ASSETS env) request = Normal (Fulfilled r) →
  optional_includes "text/html" (Headers.get "content-type" (headers r)) = false →
  handle request env ctx w =
    (Fulfilled (fresh (dom (heap w))),
     {| heap := <[fresh (dom (heap w)) := r]> (heap w); trace := called |}).
Proof.
  intros Ha Hct. run. rewrite Hu. simpl. rewrite Hpath. simpl. rewrite Ha. simpl.
  rewrite lookup_total_insert_eq. by rewrite Hct.
Qed.

Lemma run_asset_html r :
  Fetcher_fetch (ASSETS env) request = Normal (Fulfilled r) →
  optional_includes "text/html" (Headers.get "content-type" (headers r)) = true →
  handle request env ctx w =
    let h1 := <[fresh (dom (heap w)) := r]> (heap w) in
    (Fulfilled (fresh (dom h1)),
     {| heap := <[fresh (dom h1) := with_headers (Headers.set CSP_NAME CSP_VALUE) r]> h1;
        trace := called |}).
Proof.
  intros Ha Hct. run. rewrite Hu. simpl. rewrite Hpath. simpl. rewrite Ha. simpl.
  rewrite lookup_total_insert_eq. rewrite Hct. simpl.
  by rewrite alter_insert_eq.
Qed.

End asset.

Section api.

Variable u : URL.
Hypothesis Hu : new_URL (url request) = Normal u.
Hypothesis Hpath : JsString.startsWith "/api/" (pathname u) = true.

(** The response the [catch] block builds. *)
Let substitute : Response :=
  make_Response reason_phrase (from_string "API Error")
    {| init_status := Some 500; init_statusText := None; init_headers := None |}.

Let failed (e : JsError) : Event := console_error_called "API request failed:" e.

Lemma run_api_createApp_throw e :
  createApp env = Throw e →
  handle request env ctx w =
    (Fulfilled (fresh (dom (heap w))),
     {| heap := <[fresh (dom (heap w)) := substitute]> (heap w);
        trace := trace w ++ [createApp_called; failed e] |}).
Proof.
  intros Hc. run. rewrite Hu. simpl. rewrite Hpath. simpl. rewrite Hc. simpl.
  by rewrite <- app_assoc.
Qed.

Section dispatched.

Variable app : App.
Hypothesis Hc : createApp env = Normal app.

Let called : list Event := trace w ++ [createApp_called; App_fetch_called request].

Lemma run_api_fetch_throw e :
  App_fetch app request env ctx = Throw e →
  handle request env ctx w =
    (Fulfilled (fresh (dom (heap w))),
     {| heap := <[fresh (dom (heap w)) := substitute]> (heap w);
        trace := called ++ [failed e] |}).
Proof.
  intros Ha. run. rewrite Hu. simpl. rewrite Hpath. simpl. rewrite Hc. simpl.
  rewrite Ha. simpl. unfold called. by rewrite <- !app_assoc.
Qed.

Lemma run_api_plain r :
  App_fetch app request env ctx = Normal (Plain r) →
  handle request env ctx w =
    (Fulfilled (fresh (dom (heap w))),
     {| heap := <[fresh (dom (heap w)) := r]> (heap w); trace := called |}).
Proof.
  intros Ha. run. rewrite Hu. simpl. rewrite Hpath. simpl. rewrite Hc. simpl.
  rewrite Ha. simpl. unfold called. by rewrite <- !app_assoc.
Qed.

Lemma run_api_fulfilled r :
  App_fetch app request env ctx = Normal (Thenable (Fulfilled r)) →
  handle request env ctx w =
    (Fulfilled (fresh (dom (heap w))),
     {| heap := <[fresh (dom (heap w)) := r]> (heap w); trace := called |}).
Proof.
  intros Ha. run. rewrite Hu. simpl. rewrite Hpath. simpl. rewrite Hc. simpl.
  rewrite Ha. simpl. unfold called. by rewrite <- !app_assoc.
Qed.

(** The promise [app.fetch] returned is handed to the caller as it is: the
    [try] block has been left by the time it rejects. *)
Lemma run_api_rejected e :
  App_fetch app request env ctx = Normal (Thenable (Rejected e)) →
  handle request env ctx w = (Rejected e, {| heap := heap w; trace := called |}).
Proof.
  intros Ha. run. rewrite Hu. simpl. rewrite Hpath. simpl. rewrite Hc. simpl.
  rewrite Ha. simpl. unfold called. by rewrite <- !app_assoc.
Qed.

Lemma run_api_unsettled :
  App_fetch app request env ctx = Normal (Thenable Unsettled) →
  handle request env ctx w = (Unsettled, {| heap := heap w; trace := called |}).
Proof.
  intros Ha. run. rewrite Hu. simpl. rewrite Hpath. simpl. rewrite Hc. simpl.
  rewrite Ha. simpl. unfold called. by rewrite <- !app_assoc.
Qed.

End dispatched.

End api.

End paths.

(** * Facts about the string tests

    [startsWith] and [includes] hold exactly when the text literally begins
    with, or contains, the pattern: characters are compared as they are. *)

Lemma startsWith_spec p s :
  JsString.startsWith p s = true ↔ ∃ rest, s = p +:+ rest.
Proof.
  unfold JsString.startsWith. revert s.
  induction p as [|a p IH]; intros s; simpl.
  - destruct s; split; eauto.
  - destruct s as [|b s]; simpl.
    + split; [done | by intros [rest ?]].
    + destruct (Ascii.ascii_dec a b) as [->|Hab].
      * rewrite IH. split; intros [rest E]; exists rest; [by rewrite E | by injection E].
      * split; [done | intros [rest E]; by injection E].
Qed.

Lemma includes_unfold p s :
  JsString.includes p s =
  JsString.startsWith p s ||
  match s with
  | EmptyString => false
  | String _ s' => JsString.includes p s'
  end.
Proof. by destruct s. Qed.

Lemma includes_spec p s :
  JsString.includes p s = true ↔ ∃ a b, s = a +:+ p +:+ b.
Proof.
  induction s as [|c s IH]; rewrite includes_unfold, orb_true_iff, startsWith_spec.
  - split.
    + intros [[rest E]|H]; [|done]. by exists "", rest.
    + intros [a [b E]]. left. destruct a; [by exists b | done].
  - rewrite IH. split.
    + intros [[rest E]|[a [b E]]].
      * by exists "", rest.
      * exists (String c a), b. simpl. by rewrite E.
    + intros [a [b E]]. destruct a as [|c' a]; simpl in E.
      * left. by exists b.
      * right. exists a, b. by injection E.
Qed.

Lemma startsWith_false p s :
  JsString.startsWith p s = false ↔ ¬ ∃ rest, s = p +:+ rest.
Proof. rewrite <- startsWith_spec. by destruct (JsString.startsWith p s). Qed.

(** The handler's HTML test on a header list, as a proposition: there is a
    [content-type] and its value contains [text/html] as written. *)
Lemma optional_includes_spec p x :
  optional_includes p x = true ↔ ∃ s a b, x = Some s ∧ s = a +:+ p +:+ b.
Proof.
  destruct x as [s|]; simpl.
  - rewrite includes_spec. split.
    + intros (a & b & E). by exists s, a, b.
    + intros (s' & a & b & [= <-] & E). by exists a, b.
  - split; [done | by intros (s & a & b & ? & ?)].
Qed.

Lemma optional_includes_false p x :
  optional_includes p x = false ↔ ¬ ∃ s a b, x = Some s ∧ s = a +:+ p +:+ b.
Proof. rewrite <- optional_includes_spec. by destruct (optional_includes p x). Qed.

(** * What each path shows to the outside

    The observation of an invocation does not mention the world it ran in:
    it is determined by the request and by what the collaborators do. *)

Lemma emitted_app w h evs :
  emitted w {| heap := h; trace := trace w ++ evs |} = evs.
Proof. unfold emitted. simpl. apply drop_app_length. Qed.

Lemma emitted_same w : emitted w w = [].
Proof. unfold emitted. apply drop_all. Qed.

Section observations.

Variable new_URL : string → completion URL.
Variable createApp : Env → completion App.
Variable reason_phrase : Z → string.
Variables (request : Request) (env : Env) (ctx : ExecutionContext) (w : World).

Local Abbreviation handle := (worker_fetch new_URL createApp reason_phrase).

Lemma observe_bad_URL e :
  new_URL (url request) = Throw e →
  observation w (handle request env ctx w) = (Rejected e, []).
Proof.
  intros Hu. rewrite (run_bad_URL _ _ _ _ _ _ _ _ Hu).
  unfold observation. simpl. by rewrite emitted_same.
Qed.

Lemma observe_asset u :
  new_URL (url request) = Normal u →
  JsString.startsWith "/api/" (pathname u) = false →
  observation w (handle request env ctx w) =
    (match Fetcher_fetch (ASSETS env) request with
     | Throw e | Normal (Rejected e) => Rejected e
     | Normal Unsettled => Unsettled
     | Normal (Fulfilled r) =>
         Fulfilled (Some
           (if optional_includes "text/html" (Headers.get "content-type" (headers r))
            then with_headers (Headers.set CSP_NAME CSP_VALUE) r
            else r))
     end,
     [ASSETS_fetch_called request]).
Proof.
  intros Hu Hp. unfold observation.
  destruct (Fetcher_fetch (ASSETS env) request) as [[r|e|]|e] eqn:Ha.
  - destruct (optional_includes "text/html" _) eqn:Hct.
    + rewrite (run_asset_html _ _ _ _ _ _ _ _ Hu Hp _ Ha Hct). simpl.
      by rewrite emitted_app, lookup_insert_eq.
    + rewrite (run_asset_passthrough _ _ _ _ _ _ _ _ Hu Hp _ Ha Hct). simpl.
      by rewrite emitted_app, lookup_insert_eq.
  - rewrite (run_asset_rejected _ _ _ _ _ _ _ _ Hu Hp _ Ha). simpl.
    by rewrite emitted_app.
  - rewrite (run_asset_unsettled _ _ _ _ _ _ _ _ Hu Hp Ha). simpl.
    by rewrite emitted_app.
  - rewrite (run_asset_throw _ _ _ _ _ _ _ _ Hu Hp _ Ha). simpl.
    by rewrite emitted_app.
Qed.

Lemma observe_api u :
  new_URL (url request) = Normal u →
  JsString.startsWith "/api/" (pathname u) = true →
  observation w (handle request env ctx w) =
    let substitute :=
      {| status := 500; statusText := reason_phrase 500;
         headers := [("content-type", "text/plain;charset=UTF-8")];
         body := Some (stream_of "API Error") |} in
    let failed e := console_error_called "API request failed:" e in
    match dispatch_steps createApp request env ctx with
    | Throw e =>
        (Fulfilled (Some substitute), [createApp_called; failed e])
    | Normal (Throw e) =>
        (Fulfilled (Some substitute),
         [createApp_called; App_fetch_called request; failed e])
    | Normal (Normal (Plain r)) | Normal (Normal (Thenable (Fulfilled r))) =>
        (Fulfilled (Some r), [createApp_called; App_fetch_called request])
    | Normal (Normal (Thenable (Rejected e))) =>
        (Rejected e, [createApp_called; App_fetch_called request])
    | Normal (Normal (Thenable Unsettled)) =>
        (Unsettled, [createApp_called; App_fetch_called request])
    end.
Proof.
  intros Hu Hp. unfold observation, dispatch_steps.
  destruct (createApp env) as [app|e] eqn:Hc.
  - destruct (App_fetch app request env ctx) as [[r|[r|e|]]|e] eqn:Ha.
    + rewrite (run_api_plain _ _ _ _ _ _ _ _ Hu Hp _ Hc _ Ha). simpl.
      by rewrite emitted_app, lookup_insert_eq.
    + rewrite (run_api_fulfilled _ _ _ _ _ _ _ _ Hu Hp _ Hc _ Ha). simpl.
      by rewrite emitted_app, lookup_insert_eq.
    + rewrite (run_api_rejected _ _ _ _ _ _ _ _ Hu Hp _ Hc _ Ha). simpl.
      by rewrite emitted_app.
    + rewrite (run_api_unsettled _ _ _ _ _ _ _ _ Hu Hp _ Hc Ha). simpl.
      by rewrite emitted_app.
    + rewrite (run_api_fetch_throw _ _ _ _ _ _ _ _ Hu Hp _ Hc _ Ha). simpl.
      rewrite <- app_assoc. by rewrite emitted_app, lookup_insert_eq.
  - rewrite (run_api_createApp_throw _ _ _ _ _ _ _ _ Hu Hp _ Hc). simpl.
    by rewrite emitted_app, lookup_insert_eq.
Qed.

End observations.

Lemma settled_with_Fulfilled w p r :
  settled_with w p = Fulfilled (Some r) ↔ ∃ l, p = Fulfilled l ∧ heap w !! l = Some r.
Proof.
  destruct p as [l|e|]; simpl; split.
  - intros [= E]. by exists l.
  - intros (l' & [= <-] & E). by rewrite E.
  - done.
  - by intros (l & ? & _).
  - done.
  - by intros (l & ? & _).
Qed.

Lemma settled_with_Rejected w p e :
  settled_with w p = Rejected e ↔ p = Rejected e.
Proof. destruct p; simpl; split; congruence. Qed.

Lemma settled_with_Unsettled w p :
  settled_with w p = Unsettled ↔ p = Unsettled.
Proof. destruct p; simpl; split; congruence. Qed.

Lemma dispatch_throws createApp request env ctx e :
  dispatch createApp request env ctx = Throw e ↔
  dispatch_steps createApp request env ctx = Throw e ∨
  dispatch_steps createApp request env ctx = Normal (Throw e).
Proof.
  unfold dispatch, dispatch_steps. destruct (createApp env) as [app|e'].
  - split; [intros ->; by right | by intros [|[= ->]]].
  - split; [intros [= ->]; by left | by intros [[= ->]|]].
Qed.

(** * The claims *)

Section claims.

Variable new_URL : string → completion URL.
Variable createApp : Env → completion App.
Variable reason_phrase : Z → string.

Local Abbreviation handle := (worker_fetch new_URL createApp reason_phrase).

(** C4.  Routing is decided by the path alone.  When the path begins with
    the exact text [/api/], the handler never calls the asset store and
    dispatches the request to the sub-application: it calls [createApp(env)]
    and then, unless that threw, [app.fetch(request, env, ctx)], these being
    all its calls apart from the [console.error] of a caught throw, and its
    promise settles the way the value [app.fetch] returned does.  In every
    other case, a prefix in another letter case included, its one call is
    [env.ASSETS.fetch(request)], it never touches the sub-application, and
    what its promise settles with comes from the asset store. *)
Theorem routing_by_api_prefix request env ctx w u :
  new_URL (url request) = Normal u →
  let out := handle request env ctx w in
  let calls := emitted w out.2 in
  let failed e := console_error_called "API request failed:" e in
  ((∃ rest, pathname u = "/api/" +:+ rest) →
     head calls = Some createApp_called ∧
     Forall (λ ev, is_ASSETS_call ev = false) calls ∧
     match createApp env with
     | Throw e => calls = [createApp_called; failed e]
     | Normal app =>
         match App_fetch app request env ctx with
         | Throw e =>
             calls = [createApp_called; App_fetch_called request; failed e]
         | Normal a =>
             calls = [createApp_called; App_fetch_called request] ∧
             settled_with out.2 out.1 =
               match a with
               | Plain r | Thenable (Fulfilled r) => Fulfilled (Some r)
               | Thenable (Rejected e) => Rejected e
               | Thenable Unsettled => Unsettled
               end
         end
     end) ∧
  ((¬ ∃ rest, pathname u = "/api/" +:+ rest) →
     calls = [ASSETS_fetch_called request] ∧
     Forall (λ ev, is_App_call ev = false) calls ∧
     match Fetcher_fetch (ASSETS env) request with
     | Throw e | Normal (Rejected e) => out.1 = Rejected e
     | Normal Unsettled => out.1 = Unsettled
     | Normal (Fulfilled r) =>
         ∀ r', settled_with out.2 out.1 = Fulfilled (Some r') →
               status r' = status r ∧ statusText r' = statusText r ∧
               body r' = body r
     end) ∧
  JsString.startsWith "/api/" "/API/agent" = false.
Proof.
  intros Hu out calls failed. split; [|split; [|done]].
  - intros Hp%startsWith_spec.
    pose proof (observe_api new_URL createApp reason_phrase request env ctx w u Hu Hp) as Ho.
    unfold observation, dispatch_steps in Ho. simpl in Ho.
    fold out in Ho. fold calls in Ho.
    destruct (createApp env) as [app|e].
    + destruct (App_fetch app request env ctx) as [[r|[r|e|]]|e];
        injection Ho as Hs Hc; rewrite Hc;
        (split; [done|]); (split; [by repeat constructor|]); by try split.
    + injection Ho as Hs Hc. rewrite Hc.
      split; [done|]. split; [by repeat constructor|]. done.
  - intros Hp%startsWith_false.
    pose proof (observe_asset new_URL createApp reason_phrase request env ctx w u Hu Hp) as Ho.
    unfold observation in Ho. simpl in Ho. fold out in Ho. fold calls in Ho.
    injection Ho as Hs Hc. rewrite Hc.
    split; [done|]. split; [by repeat constructor|].
    destruct (Fetcher_fetch (ASSETS env) request) as [[r|e|]|e].
    + intros r' Hr'. rewrite Hr' in Hs. injection Hs as ->.
      by destruct (optional_includes _ _).
    + by apply settled_with_Rejected in Hs.
    + by apply settled_with_Unsettled in Hs.
    + by apply settled_with_Rejected in Hs.
Qed.

(** C10.  A path that is exactly [/api], or that goes on after [/api] with
    anything but a slash, is an asset request: the one call made is
    [env.ASSETS.fetch(request)].  The sub-application is reached only by
    paths that begin with the five characters [/api/]. *)
Theorem api_without_slash_is_asset request env ctx w u :
  new_URL (url request) = Normal u →
  let calls := emitted w (handle request env ctx w).2 in
  ((pathname u = "/api" ∨
    ∃ c rest, pathname u = "/api" +:+ String c rest ∧ c ≠ "/"%char) →
     calls = [ASSETS_fetch_called request]) ∧
  ((∃ ev, ev ∈ calls ∧ is_App_call ev = true) →
     ∃ rest, pathname u = "/api/" +:+ rest) ∧
  String.length "/api/" = 5%nat.
Proof.
  intros Hu calls. split; [|split; [|done]].
  - intros Hp.
    assert (JsString.startsWith "/api/" (pathname u) = false) as Hf.
    { apply startsWith_false. intros [rest E].
      destruct Hp as [Hp|(c & rest' & Hp & Hc)]; rewrite Hp in E; [done|].
      simpl in E. injection E as E _. by apply Hc. }
    pose proof (observe_asset new_URL createApp reason_phrase request env ctx w u Hu Hf) as Ho.
    apply (f_equal snd) in Ho. by subst calls.
  - intros (ev & Hin & Hev).
    destruct (JsString.startsWith "/api/" (pathname u)) eqn:Hp.
    + by apply startsWith_spec.
    + pose proof (observe_asset new_URL createApp reason_phrase request env ctx w u Hu Hp) as Ho.
      apply (f_equal snd) in Ho. unfold observation in Ho. simpl in Ho.
      subst calls. rewrite Ho in Hin.
      apply list_elem_of_singleton in Hin. by subst ev.
Qed.

(** C5.  For a request outside [/api/] whose asset response has no
    [content-type], or one that does not contain [text/html], the handler
    returns the very reference the asset store's call produced and leaves
    the world as that call left it: no object is created, and the response
    object is the one the store returned, with its status, headers and body
    as they were. *)
Theorem non_html_asset_returned_as_is request env ctx w u r :
  new_URL (url request) = Normal u →
  (¬ ∃ rest, pathname u = "/api/" +:+ rest) →
  Fetcher_fetch (ASSETS env) request = Normal (Fulfilled r) →
  (¬ ∃ ct a b, Headers.get "content-type" (headers r) = Some ct ∧
               ct = a +:+ "text/html" +:+ b) →
  ∃ l w1,
    call_ASSETS_fetch env request w = (Ret (Fulfilled l), w1) ∧
    handle request env ctx w = (Fulfilled l, w1) ∧
    heap w1 !! l = Some r ∧
    size (heap w1) = S (size (heap w)).
Proof.
  intros Hu Hp%startsWith_false Ha Hct%optional_includes_false.
  rewrite (run_asset_passthrough new_URL createApp reason_phrase request env ctx w u Hu Hp r Ha Hct).
  eexists _, _. split; [|split; [reflexivity|split]].
  - unfold call_ASSETS_fetch, mbind, mret, Run_bind, Run_ret, emit, eval,
      settle_in_store, alloc. simpl. rewrite Ha. simpl. reflexivity.
  - simpl. apply lookup_insert_eq.
  - simpl. apply map_size_insert_None, fresh_not_in_heap.
Qed.

(** C3.  For a request outside [/api/] whose asset response has a
    [content-type] containing [text/html], the handler returns a new
    response object with the status, status text and body stream of the
    store's response and with its headers, on which
    [Content-Security-Policy] has been set to the fixed directive string:
    every header of another name reads as before, a policy header the store
    had sent is overwritten, and the store's own response object is left as
    it was. *)
Theorem html_asset_gets_policy request env ctx w u r ct a b :
  new_URL (url request) = Normal u →
  (¬ ∃ rest, pathname u = "/api/" +:+ rest) →
  Fetcher_fetch (ASSETS env) request = Normal (Fulfilled r) →
  Headers.get "content-type" (headers r) = Some ct →
  ct = a +:+ "text/html" +:+ b →
  ∃ l l' w1 w' r',
    call_ASSETS_fetch env request w = (Ret (Fulfilled l), w1) ∧
    handle request env ctx w = (Fulfilled l', w') ∧
    l' ≠ l ∧ heap w' !! l = Some r ∧ heap w' !! l' = Some r' ∧
    status r' = status r ∧
    statusText r' = statusText r ∧
    body r' = body r ∧
    (∀ n, Headers.same_name n "Content-Security-Policy" = false →
          Headers.get n (headers r') = Headers.get n (headers r)) ∧
    Headers.get "Content-Security-Policy" (headers r') =
      Some "default-src 'self'; script-src 'self' 'unsafe-eval' 'unsafe-inline' data: blob:; style-src 'self' 'unsafe-inline' data:; worker-src 'self' blob:; child-src 'self' blob:; font-src 'self' data:; img-src 'self' data: blob:; connect-src 'self' ws: wss: https:;".
Proof.
  intros Hu Hp%startsWith_false Ha Hget Hct.
  assert (optional_includes "text/html"
            (Headers.get "content-type" (headers r)) = true) as Hhtml.
  { apply optional_includes_spec. by exists ct, a, b. }
  rewrite (run_asset_html new_URL createApp reason_phrase request env ctx w u Hu Hp r Ha Hhtml).
  eexists (fresh (dom (heap w))), _, _, _, _.
  split; [|split; [reflexivity|split; [|split; [|split]]]].
  - unfold call_ASSETS_fetch, mbind, mret, Run_bind, Run_ret, emit, eval,
      settle_in_store, alloc. simpl. rewrite Ha. simpl. reflexivity.
  - apply fresh_insert_ne.
  - simpl. rewrite lookup_insert_ne by apply fresh_insert_ne.
    apply lookup_insert_eq.
  - simpl. apply lookup_insert_eq.
  - repeat split; simpl.
    + intros n Hn. by apply HeadersFacts.get_set_other.
    + apply HeadersFacts.get_set_same.
Qed.

(** C7.  Where the handler fails to complete with a response.  Under
    [/api/] it does complete with one, a response object of the store,
    whenever the sub-application returns a response, returns a promise that
    fulfils, or throws (the 500 is substituted).  It does not when the
    promise [app.fetch(...)] returned rejects: that path ends with the
    handler's promise rejected and no response at all. *)
Theorem rejected_dispatch_yields_no_response request env ctx w u :
  new_URL (url request) = Normal u →
  (∃ rest, pathname u = "/api/" +:+ rest) →
  (returns_or_throws (dispatch createApp request env ctx) = true →
     ∃ l r, (handle request env ctx w).1 = Fulfilled l ∧
            heap (handle request env ctx w).2 !! l = Some r) ∧
  (∀ e, dispatch createApp request env ctx = Normal (Thenable (Rejected e)) →
     (handle request env ctx w).1 = Rejected e ∧
     ¬ ∃ l, (handle request env ctx w).1 = Fulfilled l).
Proof.
  intros Hu Hp%startsWith_spec.
  pose proof (observe_api new_URL createApp reason_phrase request env ctx w u Hu Hp) as Ho.
  apply (f_equal fst) in Ho. unfold observation in Ho. simpl in Ho.
  unfold dispatch. unfold dispatch_steps in Ho.
  destruct (createApp env) as [app|e0].
  - destruct (App_fetch app request env ctx) as [[r|[r|e0|]]|e0]; simpl; split;
      try (intros _; apply settled_with_Fulfilled in Ho as (l & H1 & H2);
           by eexists l, _);
      try done.
    intros e [= <-]. apply settled_with_Rejected in Ho.
    split; [done|]. intros [l Hl]. congruence.
  - split; [intros _ | done].
    apply settled_with_Fulfilled in Ho as (l & H1 & H2). by eexists l, _.
Qed.

(** C8.  Two invocations on the same request, in any two worlds (any
    store, any earlier trace, the world a previous invocation left among
    them), with collaborators that do the same in both, show the same to the
    outside: the promise settles the same way, with equal response objects,
    and the same calls are made.  Nothing of the world the handler starts
    in reaches its result. *)
Theorem same_inputs_same_outcome request env1 env2 ctx1 ctx2 w1 w2 :
  Fetcher_fetch (ASSETS env1) request = Fetcher_fetch (ASSETS env2) request →
  dispatch_steps createApp request env1 ctx1 =
    dispatch_steps createApp request env2 ctx2 →
  observation w1 (handle request env1 ctx1 w1) =
    observation w2 (handle request env2 ctx2 w2).
Proof.
  intros Ha Hd.
  destruct (new_URL (url request)) as [u|e] eqn:Hu.
  - destruct (JsString.startsWith "/api/" (pathname u)) eqn:Hp.
    + rewrite !(observe_api new_URL createApp reason_phrase request _ _ _ u Hu Hp).
      by rewrite Hd.
    + rewrite !(observe_asset new_URL createApp reason_phrase request _ _ _ u Hu Hp).
      by rewrite Ha.
  - by rewrite !(observe_bad_URL new_URL createApp reason_phrase request _ _ _ e Hu).
Qed.

(** C1.  What the handler does with a failing sub-application.  A failure
    thrown by [createApp(env)] or by the call [app.fetch(...)] itself is
    caught: the promise is fulfilled with a response of status 500 and body
    [API Error].  A failure that arrives as the rejection of the promise
    [app.fetch(...)] returned is not: the handler returns that promise
    without awaiting it, so its own promise rejects with the same error,
    and no response is created. *)
Theorem rejected_dispatch_reaches_caller request env ctx w u :
  new_URL (url request) = Normal u →
  (∃ rest, pathname u = "/api/" +:+ rest) →
  (∀ e, dispatch createApp request env ctx = Throw e →
     ∃ l r, (handle request env ctx w).1 = Fulfilled l ∧
            heap (handle request env ctx w).2 !! l = Some r ∧
            status r = 500 ∧ body r = Some (stream_of "API Error")) ∧
  (∀ e, dispatch createApp request env ctx = Normal (Thenable (Rejected e)) →
     (handle request env ctx w).1 = Rejected e ∧
     heap (handle request env ctx w).2 = heap w).
Proof.
  intros Hu Hp%startsWith_spec. split; intros e Hd.
  - pose proof (observe_api new_URL createApp reason_phrase request env ctx w u Hu Hp) as Ho.
    apply (f_equal fst) in Ho. unfold observation in Ho. simpl in Ho.
    apply dispatch_throws in Hd as [Hd|Hd]; rewrite Hd in Ho;
      apply settled_with_Fulfilled in Ho as (l & H1 & H2);
      eexists l, _; by repeat split.
  - unfold dispatch in Hd. destruct (createApp env) as [app|e'] eqn:Hc; [|done].
    by rewrite (run_api_rejected new_URL createApp reason_phrase request env ctx w u Hu Hp app Hc e Hd).
Qed.

(** C9.  The calls of one invocation.  Outside [/api/] the handler makes
    the single call [env.ASSETS.fetch(request)].  Under [/api/] it calls
    [createApp(env)] and then, unless that threw, [app.fetch(...)] once; it
    writes one [console.error] when either of the two calls threw, and none
    otherwise, also when the promise [app.fetch(...)] returned rejects. *)
Theorem calls_of_one_invocation request env ctx w u :
  new_URL (url request) = Normal u →
  let calls := emitted w (handle request env ctx w).2 in
  let failed e := console_error_called "API request failed:" e in
  ((¬ ∃ rest, pathname u = "/api/" +:+ rest) →
     calls = [ASSETS_fetch_called request]) ∧
  ((∃ rest, pathname u = "/api/" +:+ rest) →
     match dispatch_steps createApp request env ctx with
     | Throw e => calls = [createApp_called; failed e]
     | Normal (Throw e) =>
         calls = [createApp_called; App_fetch_called request; failed e]
     | Normal (Normal (Thenable (Rejected e))) =>
         calls = [createApp_called; App_fetch_called request] ∧
         (handle request env ctx w).1 = Rejected e ∧
         filter (λ ev, is_console_error ev = true) calls = []
     | Normal (Normal _) =>
         calls = [createApp_called; App_fetch_called request]
     end).
Proof.
  intros Hu calls failed. split.
  - intros Hp%startsWith_false.
    pose proof (observe_asset new_URL createApp reason_phrase request env ctx w u Hu Hp) as Ho.
    by apply (f_equal snd) in Ho.
  - intros Hp%startsWith_spec.
    pose proof (observe_api new_URL createApp reason_phrase request env ctx w u Hu Hp) as Ho.
    unfold observation in Ho. simpl in Ho. fold calls in Ho.
    destruct (dispatch_steps createApp request env ctx) as [[[r|[r|e|]]|e]|e];
      injection Ho as Hs Hc; rewrite ?Hc; try done.
    split; [done|]. split; [|done].
    revert Hs. generalize (handle request env ctx w).2.
    destruct (handle request env ctx w).1; simpl; congruence.
Qed.

(** C6 (amended).  When [createApp(env)] or the call [app.fetch(...)] throws,
    the response the handler substitutes has status 500 and the body
    [API Error].  The handler passes no headers of its own; the response
    carries exactly one header, the
    [content-type: text/plain;charset=UTF-8] that the [Response] constructor
    derives from a string body, which is what marks the body as plain
    text. *)
Theorem caught_failure_response request env ctx w u e :
  new_URL (url request) = Normal u →
  (∃ rest, pathname u = "/api/" +:+ rest) →
  dispatch createApp request env ctx = Throw e →
  ∃ l r, (handle request env ctx w).1 = Fulfilled l ∧
         heap (handle request env ctx w).2 !! l = Some r ∧
         status r = 500 ∧
         body r = Some (stream_of "API Error") ∧
         headers r = [("content-type", "text/plain;charset=UTF-8")].
Proof.
  intros Hu Hp%startsWith_spec Hd.
  pose proof (observe_api new_URL createApp reason_phrase request env ctx w u Hu Hp) as Ho.
  apply (f_equal fst) in Ho. unfold observation in Ho. simpl in Ho.
  apply dispatch_throws in Hd as [Hd|Hd]; rewrite Hd in Ho;
    apply settled_with_Fulfilled in Ho as (l & H1 & H2);
    eexists l, _; by repeat split.
Qed.

(** The HTML test of the asset path, in general.  The search is exact and
    case-sensitive: when the store's response has a [content-type] (a name
    looked up without regard to case) whose value contains the characters
    [text/html] as written, the returned response has
    [Content-Security-Policy] set to the fixed string; in every other case
    the returned object is the store's response as it was. *)
Theorem html_test_is_exact request env ctx w u r :
  new_URL (url request) = Normal u →
  (¬ ∃ rest, pathname u = "/api/" +:+ rest) →
  Fetcher_fetch (ASSETS env) request = Normal (Fulfilled r) →
  ∃ l r',
    (handle request env ctx w).1 = Fulfilled l ∧
    heap (handle request env ctx w).2 !! l = Some r' ∧
    ((∃ ct a b, Headers.get "content-type" (headers r) = Some ct ∧
                ct = a +:+ "text/html" +:+ b) →
       Headers.get "Content-Security-Policy" (headers r') = Some CSP_VALUE) ∧
    ((¬ ∃ ct a b, Headers.get "content-type" (headers r) = Some ct ∧
                  ct = a +:+ "text/html" +:+ b) →
       r' = r ∧ (handle request env ctx w).2 = (call_ASSETS_fetch env request w).2).
Proof.
  intros Hu Hp%startsWith_false Ha.
  destruct (optional_includes "text/html"
              (Headers.get "content-type" (headers r))) eqn:Hct.
  - rewrite (run_asset_html new_URL createApp reason_phrase request env ctx w u Hu Hp r Ha Hct).
    eexists _, _. split; [done|]. split; [apply lookup_insert_eq|]. split.
    + intros _. apply HeadersFacts.get_set_same.
    + intros Hn%optional_includes_false. by rewrite Hct in Hn.
  - rewrite (run_asset_passthrough new_URL createApp reason_phrase request env ctx w u Hu Hp r Ha Hct).
    eexists _, _. split; [done|]. split; [apply lookup_insert_eq|]. split.
    + intros Hy%optional_includes_spec. by rewrite Hct in Hy.
    + intros _. split; [done|].
      unfold call_ASSETS_fetch, mbind, mret, Run_bind, Run_ret, emit, eval,
        settle_in_store, alloc. simpl. by rewrite Ha.
Qed.

End claims.

(** * The claims at sample inputs *)

(** C4 at [/api/agent]: [createApp], then [app.fetch] with the request, and
    the response of the sub-application comes back. *)
Lemma routing_by_api_prefix_witness :
  let request := sample_request "https://vibe.example/api/agent" in
  let out := worker_fetch sample_new_URL (λ _, Normal sample_app)
               sample_reason_phrase request (sample_env sample_script)
               sample_ctx empty_world in
  sample_new_URL "https://vibe.example/api/agent" =
    Normal {| href := "https://vibe.example/api/agent"; pathname := "/api/agent" |} ∧
  head (emitted empty_world out.2) = Some createApp_called ∧
  emitted empty_world out.2 = [createApp_called; App_fetch_called request] ∧
  settled_with out.2 out.1 = Fulfilled (Some sample_json).
Proof.
  intros request out.
  assert (sample_new_URL "https://vibe.example/api/agent" =
            Normal {| href := "https://vibe.example/api/agent";
                      pathname := "/api/agent" |}) as Hu by reflexivity.
  split; [exact Hu|].
  destruct (routing_by_api_prefix sample_new_URL (λ _, Normal sample_app)
              sample_reason_phrase request
              (sample_env sample_script) sample_ctx empty_world _ Hu)
    as (Hapi & _ & _).
  destruct Hapi as (Hhead & _ & Hcalls & Hout); [by exists "agent"|].
  split; [exact Hhead|]. split; [exact Hcalls | exact Hout].
Defined.

(** C10 at the path [/api]. *)
Lemma api_without_slash_is_asset_witness :
  sample_new_URL "https://vibe.example/api" =
    Normal {| href := "https://vibe.example/api"; pathname := "/api" |} ∧
  emitted empty_world
    (worker_fetch sample_new_URL (λ _, Normal sample_app) sample_reason_phrase
       (sample_request "https://vibe.example/api")
       (sample_env sample_script) sample_ctx empty_world).2
    = [ASSETS_fetch_called (sample_request "https://vibe.example/api")].
Proof.
  assert (sample_new_URL "https://vibe.example/api" =
            Normal {| href := "https://vibe.example/api"; pathname := "/api" |})
    as Hu by reflexivity.
  split; [exact Hu|].
  destruct (api_without_slash_is_asset sample_new_URL (λ _, Normal sample_app) sample_reason_phrase
              (sample_request "https://vibe.example/api")
              (sample_env sample_script) sample_ctx empty_world _ Hu)
    as (Hasset & _ & _).
  apply Hasset. by left.
Defined.

(** C5 at [/assets/app.js], served as [application/javascript]. *)
Lemma non_html_asset_returned_as_is_witness :
  ∃ l w1,
    call_ASSETS_fetch (sample_env sample_script)
      (sample_request "https://vibe.example/assets/app.js") empty_world
      = (Ret (Fulfilled l), w1) ∧
    worker_fetch sample_new_URL (λ _, Normal sample_app) sample_reason_phrase
      (sample_request "https://vibe.example/assets/app.js")
      (sample_env sample_script) sample_ctx empty_world = (Fulfilled l, w1) ∧
    heap w1 !! l = Some sample_script ∧
    size (heap w1) = S (size (heap empty_world)).
Proof.
  apply (non_html_asset_returned_as_is sample_new_URL (λ _, Normal sample_app) sample_reason_phrase
           (sample_request "https://vibe.example/assets/app.js")
           (sample_env sample_script) sample_ctx empty_world
           {| href := "https://vibe.example/assets/app.js";
              pathname := "/assets/app.js" |}).
  - reflexivity.
  - intros [rest E]. discriminate E.
  - reflexivity.
  - intros (ct & a & b & Hget & Hct).
    assert (JsString.includes "text/html" "application/javascript" = true) as Hi.
    { apply includes_spec. exists a, b. injection Hget as <-. exact Hct. }
    discriminate Hi.
Defined.

(** C3 at [/index.html], served as [text/html; charset=utf-8]. *)
Lemma html_asset_gets_policy_witness :
  ∃ l l' w1 w' r',
    call_ASSETS_fetch (sample_env (sample_asset "text/html; charset=utf-8"))
      (sample_request "https://vibe.example/index.html") empty_world
      = (Ret (Fulfilled l), w1) ∧
    worker_fetch sample_new_URL (λ _, Normal sample_app) sample_reason_phrase
      (sample_request "https://vibe.example/index.html")
      (sample_env (sample_asset "text/html; charset=utf-8")) sample_ctx empty_world
      = (Fulfilled l', w') ∧
    l' ≠ l ∧
    heap w' !! l = Some (sample_asset "text/html; charset=utf-8") ∧
    heap w' !! l' = Some r' ∧
    status r' = 200 ∧
    statusText r' = "OK" ∧
    body r' = Some (stream_of "<html>...") ∧
    (∀ n, Headers.same_name n "Content-Security-Policy" = false →
          Headers.get n (headers r') =
          Headers.get n (headers (sample_asset "text/html; charset=utf-8"))) ∧
    Headers.get "Content-Security-Policy" (headers r') =
      Some "default-src 'self'; script-src 'self' 'unsafe-eval' 'unsafe-inline' data: blob:; style-src 'self' 'unsafe-inline' data:; worker-src 'self' blob:; child-src 'self' blob:; font-src 'self' data:; img-src 'self' data: blob:; connect-src 'self' ws: wss: https:;".
Proof.
  apply (html_asset_gets_policy sample_new_URL (λ _, Normal sample_app) sample_reason_phrase
           (sample_request "https://vibe.example/index.html")
           (sample_env (sample_asset "text/html; charset=utf-8"))
           sample_ctx empty_world
           {| href := "https://vibe.example/index.html"; pathname := "/index.html" |}
           (sample_asset "text/html; charset=utf-8")
           "text/html; charset=utf-8" "" "; charset=utf-8").
  - reflexivity.
  - intros [rest E]. discriminate E.
  - reflexivity.
  - reflexivity.
  - reflexivity.
Defined.

(** C7 at [/api/agent] with a sub-application whose [fetch] returns a
    promise that rejects: no response comes out. *)
Lemma rejected_dispatch_yields_no_response_witness :
  ¬ ∃ l,
    (worker_fetch sample_new_URL (λ _, Normal rejecting_app) sample_reason_phrase
       (sample_request "https://vibe.example/api/agent")
       (sample_env sample_script) sample_ctx empty_world).1 = Fulfilled l.
Proof.
  assert (sample_new_URL "https://vibe.example/api/agent" =
            Normal {| href := "https://vibe.example/api/agent";
                      pathname := "/api/agent" |}) as Hu by reflexivity.
  assert (∃ rest, "/api/agent" = "/api/" +:+ rest) as Hp by (by exists "agent").
  destruct (rejected_dispatch_yields_no_response sample_new_URL
              (λ _, Normal rejecting_app) sample_reason_phrase
              (sample_request "https://vibe.example/api/agent")
              (sample_env sample_script) sample_ctx empty_world _ Hu Hp)
    as [_ Hrej].
  by apply (Hrej boom).
Defined.

(** C8: the same request served twice, the second time in the world the
    first invocation left, by two asset stores that answer alike. *)
Lemma same_inputs_same_outcome_witness :
  let request := sample_request "https://vibe.example/index.html" in
  let handle := worker_fetch sample_new_URL (λ _, Normal sample_app) sample_reason_phrase in
  let first := handle request (sample_env (sample_asset "text/html")) sample_ctx empty_world in
  observation empty_world first =
  observation first.2
    (handle request (sample_env (sample_asset "text/html")) (execution_context 1) first.2).
Proof.
  intros request handle first.
  apply (same_inputs_same_outcome sample_new_URL (λ _, Normal sample_app) sample_reason_phrase); reflexivity.
Defined.

(** C1 at [/api/agent] with a sub-application whose [fetch] returns a
    promise that rejects: the caller's promise rejects too. *)
Lemma rejected_dispatch_reaches_caller_witness :
  (worker_fetch sample_new_URL (λ _, Normal rejecting_app) sample_reason_phrase
     (sample_request "https://vibe.example/api/agent")
     (sample_env sample_script) sample_ctx empty_world).1 = Rejected boom.
Proof.
  assert (sample_new_URL "https://vibe.example/api/agent" =
            Normal {| href := "https://vibe.example/api/agent";
                      pathname := "/api/agent" |}) as Hu by reflexivity.
  assert (∃ rest, "/api/agent" = "/api/" +:+ rest) as Hp by (by exists "agent").
  destruct (rejected_dispatch_reaches_caller sample_new_URL
              (λ _, Normal rejecting_app) sample_reason_phrase
              (sample_request "https://vibe.example/api/agent")
              (sample_env sample_script) sample_ctx empty_world _ Hu Hp)
    as [_ Hrej].
  by apply Hrej.
Defined.

(** C9 at the same input: two calls, no [console.error]. *)
Lemma calls_of_one_invocation_witness :
  emitted empty_world
    (worker_fetch sample_new_URL (λ _, Normal rejecting_app) sample_reason_phrase
       (sample_request "https://vibe.example/api/agent")
       (sample_env sample_script) sample_ctx empty_world).2
    = [createApp_called;
       App_fetch_called (sample_request "https://vibe.example/api/agent")] ∧
  (worker_fetch sample_new_URL (λ _, Normal rejecting_app) sample_reason_phrase
     (sample_request "https://vibe.example/api/agent")
     (sample_env sample_script) sample_ctx empty_world).1 = Rejected boom.
Proof.
  assert (sample_new_URL "https://vibe.example/api/agent" =
            Normal {| href := "https://vibe.example/api/agent";
                      pathname := "/api/agent" |}) as Hu by reflexivity.
  destruct (calls_of_one_invocation sample_new_URL (λ _, Normal rejecting_app) sample_reason_phrase
              (sample_request "https://vibe.example/api/agent")
              (sample_env sample_script) sample_ctx empty_world _ Hu)
    as [_ Hapi].
  destruct Hapi as (Hcalls & Hrej & _); [by exists "agent"|].
  by split.
Defined.

(** C6 (amended) at [/api/agent] with a [createApp] that throws. *)
Lemma caught_failure_response_witness :
  ∃ l r,
    (worker_fetch sample_new_URL (λ _, Throw boom) sample_reason_phrase
       (sample_request "https://vibe.example/api/agent")
       (sample_env sample_script) sample_ctx empty_world).1 = Fulfilled l ∧
    heap (worker_fetch sample_new_URL (λ _, Throw boom) sample_reason_phrase
            (sample_request "https://vibe.example/api/agent")
            (sample_env sample_script) sample_ctx empty_world).2 !! l = Some r ∧
    status r = 500 ∧
    body r = Some (stream_of "API Error") ∧
    headers r = [("content-type", "text/plain;charset=UTF-8")].
Proof.
  apply (caught_failure_response sample_new_URL (λ _, Throw boom)
           sample_reason_phrase
           (sample_request "https://vibe.example/api/agent")
           (sample_env sample_script) sample_ctx empty_world
           {| href := "https://vibe.example/api/agent"; pathname := "/api/agent" |}
           boom).
  - reflexivity.
  - by exists "agent".
  - reflexivity.
Defined.

(** C6 as stated fails: the substituted response does carry a header. *)
Lemma substituted_response_has_a_header :
  ∃ l r,
    (worker_fetch sample_new_URL (λ _, Normal throwing_app) sample_reason_phrase
       (sample_request "https://vibe.example/api/agent")
       (sample_env sample_script) sample_ctx empty_world).1 = Fulfilled l ∧
    heap (worker_fetch sample_new_URL (λ _, Normal throwing_app) sample_reason_phrase
            (sample_request "https://vibe.example/api/agent")
            (sample_env sample_script) sample_ctx empty_world).2 !! l = Some r ∧
    status r = 500 ∧
    headers r ≠ [] ∧
    Headers.get "Content-Type" (headers r) = Some "text/plain;charset=UTF-8".
Proof.
  set (out := worker_fetch _ _ _ _ _ _ _).
  assert (settled_with out.2 out.1 =
            Fulfilled (Some {| status := 500;
                               statusText := sample_reason_phrase 500;
                               headers := [("content-type", "text/plain;charset=UTF-8")];
                               body := Some (stream_of "API Error") |})) as Ho.
  { exact (f_equal fst
             (observe_api sample_new_URL (λ _, Normal throwing_app) sample_reason_phrase
                (sample_request "https://vibe.example/api/agent")
                (sample_env sample_script) sample_ctx empty_world
                {| href := "https://vibe.example/api/agent"; pathname := "/api/agent" |}
                eq_refl eq_refl)). }
  apply settled_with_Fulfilled in Ho as (l & H1 & H2).
  exists l. eexists. split; [exact H1|]. split; [exact H2|]. by repeat split.
Qed.

(** The HTML test at [/index.html], served as [TEXT/HTML]. *)
Lemma html_test_is_exact_witness :
  ∃ l r',
    (worker_fetch sample_new_URL (λ _, Normal sample_app) sample_reason_phrase
       (sample_request "https://vibe.example/index.html")
       (sample_env (sample_asset "TEXT/HTML")) sample_ctx empty_world).1 = Fulfilled l ∧
    heap (worker_fetch sample_new_URL (λ _, Normal sample_app) sample_reason_phrase
            (sample_request "https://vibe.example/index.html")
            (sample_env (sample_asset "TEXT/HTML")) sample_ctx empty_world).2 !! l
      = Some r' ∧
    r' = sample_asset "TEXT/HTML".
Proof.
  destruct (html_test_is_exact sample_new_URL (λ _, Normal sample_app) sample_reason_phrase
              (sample_request "https://vibe.example/index.html")
              (sample_env (sample_asset "TEXT/HTML")) sample_ctx empty_world
              {| href := "https://vibe.example/index.html"; pathname := "/index.html" |}
              (sample_asset "TEXT/HTML"))
    as (l & r' & H1 & H2 & _ & Hno).
  - reflexivity.
  - intros [rest E]. discriminate E.
  - reflexivity.
  - exists l, r'. split; [exact H1|]. split; [exact H2|].
    apply Hno. intros (ct & a & b & Hget & Hct).
    assert (JsString.includes "text/html" "TEXT/HTML" = true) as Hi.
    { apply includes_spec. exists a, b. injection Hget as <-. exact Hct. }
    discriminate Hi.
Defined.

(** C2.  An HTML response whose content type is spelled in capitals gets
    no policy header.  The value [TEXT/HTML] contains [text/html] when
    letter case is ignored, and names the same media type; the handler's
    search compares the characters as written, so the response comes back
    as the store sent it, without [Content-Security-Policy]. *)
Lemma uppercase_html_gets_no_policy :
  JsString.includes_ignoring_case "text/html" "TEXT/HTML" = true ∧
  Headers.get "content-type" (headers (sample_asset "TEXT/HTML")) = Some "TEXT/HTML" ∧
  ∃ l r',
    (worker_fetch sample_new_URL (λ _, Normal sample_app) sample_reason_phrase
       (sample_request "https://vibe.example/index.html")
       (sample_env (sample_asset "TEXT/HTML")) sample_ctx empty_world).1 = Fulfilled l ∧
    heap (worker_fetch sample_new_URL (λ _, Normal sample_app) sample_reason_phrase
            (sample_request "https://vibe.example/index.html")
            (sample_env (sample_asset "TEXT/HTML")) sample_ctx empty_world).2 !! l
      = Some r' ∧
    Headers.get "Content-Security-Policy" (headers r') = None.
Proof.
  split; [reflexivity|]. split; [reflexivity|].
  set (out := worker_fetch _ _ _ _ _ _ _).
  assert (settled_with out.2 out.1 = Fulfilled (Some (sample_asset "TEXT/HTML")))
    as Ho.
  { exact (f_equal fst
             (observe_asset sample_new_URL (λ _, Normal sample_app) sample_reason_phrase
                (sample_request "https://vibe.example/index.html")
                (sample_env (sample_asset "TEXT/HTML")) sample_ctx empty_world
                {| href := "https://vibe.example/index.html"; pathname := "/index.html" |}
                eq_refl eq_refl)). }
  apply settled_with_Fulfilled in Ho as (l & H1 & H2).
  exists l. eexists. split; [exact H1|]. split; [exact H2|]. reflexivity.
Qed.

(** * Further properties of the handler

    Behaviour of [worker.fetch] on the paths the statements above leave
    aside: failures outside the [try] block, promises that never settle,
    responses of the sub-application, and repeated rewriting. *)

Lemma append_empty_r s : s +:+ "" = s.
Proof.
  induction s as [|c s IH]; [done|].
  change (String c (s +:+ "") = String c s). by rewrite IH.
Qed.

Lemma append_assoc s1 s2 s3 : (s1 +:+ s2) +:+ s3 = s1 +:+ s2 +:+ s3.
Proof.
  induction s1 as [|c s1 IH]; [done|].
  change (String c ((s1 +:+ s2) +:+ s3) = String c (s1 +:+ s2 +:+ s3)).
  by rewrite IH.
Qed.

(** The joined value holds each of the joined values. *)
Lemma join_contains sep v vs :
  v ∈ vs → ∃ a b, JsString.join sep vs = a +:+ v +:+ b.
Proof.
  induction vs as [|x vs IH]; intros Hin.
  - by apply elem_of_nil in Hin.
  - destruct vs as [|y vs].
    + apply list_elem_of_singleton in Hin as ->.
      exists "", "". simpl. by rewrite append_empty_r.
    + apply elem_of_cons in Hin as [->|Hin].
      * by exists "", (sep +:+ JsString.join sep (y :: vs)).
      * destruct (IH Hin) as (a & b & E).
        exists (x +:+ sep +:+ a), b.
        change (JsString.join sep (x :: y :: vs))
          with (x +:+ sep +:+ JsString.join sep (y :: vs)).
        by rewrite E, !append_assoc.
Qed.

Lemma get_contains n k v h :
  (k, v) ∈ h → Headers.same_name n k = true →
  ∃ s a b, Headers.get n h = Some s ∧ s = a +:+ v +:+ b.
Proof.
  intros Hin Hn.
  assert (v ∈ Headers.values n h) as Hv.
  { unfold Headers.values. apply list_elem_of_fmap. exists (k, v).
    split; [done|]. by apply list_elem_of_filter. }
  destruct (join_contains ", " v _ Hv) as (a & b & E).
  unfold Headers.get. destruct (Headers.values n h) as [|x vs] eqn:Ev.
  - by apply elem_of_nil in Hv.
  - by exists (JsString.join ", " (x :: vs)), a, b.
Qed.

Lemma remove_idem name h :
  Headers.remove name (Headers.remove name h) = Headers.remove name h.
Proof.
  unfold Headers.remove. rewrite list_filter_filter.
  apply list_filter_iff. tauto.
Qed.

Lemma set_idem name v h :
  Headers.set name v (Headers.set name v h) = Headers.set name v h.
Proof.
  induction h as [|[k v'] h IH]; simpl.
  - by rewrite HeadersFacts.same_name_refl.
  - destruct (Headers.same_name name k) eqn:E; simpl; rewrite E.
    + by rewrite remove_idem.
    + by rewrite IH.
Qed.

Section further.

Variable new_URL : string → completion URL.
Variable createApp : Env → completion App.
Variable reason_phrase : Z → string.

Local Abbreviation handle := (worker_fetch new_URL createApp reason_phrase).

(** X1.  A request whose URL does not parse is not handled: [new URL]
    throws before any branch is taken, the handler's promise rejects with
    that error, no collaborator is called, nothing is logged and the store
    is left as it was. *)
Theorem unparseable_URL_rejects_before_any_call request env ctx w e :
  new_URL (url request) = Throw e →
  (handle request env ctx w).1 = Rejected e ∧
  emitted w (handle request env ctx w).2 = [] ∧
  heap (handle request env ctx w).2 = heap w.
Proof.
  intros Hu. rewrite (run_bad_URL new_URL createApp reason_phrase request env ctx w e Hu).
  simpl. by rewrite emitted_same.
Qed.

(** X2.  A failure of the asset store is not caught.  When
    [env.ASSETS.fetch(request)] throws, or returns a promise that rejects,
    the handler's promise rejects with the same error: no response is
    substituted, nothing is written to [console.error], and the
    sub-application is not tried. *)
Theorem asset_failure_is_not_caught request env ctx w u e :
  new_URL (url request) = Normal u →
  (¬ ∃ rest, pathname u = "/api/" +:+ rest) →
  Fetcher_fetch (ASSETS env) request = Throw e ∨
  Fetcher_fetch (ASSETS env) request = Normal (Rejected e) →
  (handle request env ctx w).1 = Rejected e ∧
  emitted w (handle request env ctx w).2 = [ASSETS_fetch_called request] ∧
  heap (handle request env ctx w).2 = heap w.
Proof.
  intros Hu Hp%startsWith_false [Ha|Ha].
  - rewrite (run_asset_throw new_URL createApp reason_phrase request env ctx w u Hu Hp e Ha).
    simpl. by rewrite emitted_app.
  - rewrite (run_asset_rejected new_URL createApp reason_phrase request env ctx w u Hu Hp e Ha).
    simpl. by rewrite emitted_app.
Qed.

(** X3.  The handler sets no time limit of its own: its promise stays
    unsettled exactly when the promise of the collaborator it called never
    settles.  On every other input it settles. *)
Theorem unsettled_only_with_the_collaborator request env ctx w u :
  new_URL (url request) = Normal u →
  (handle request env ctx w).1 = Unsettled ↔
  if JsString.startsWith "/api/" (pathname u)
  then dispatch createApp request env ctx = Normal (Thenable Unsettled)
  else Fetcher_fetch (ASSETS env) request = Normal Unsettled.
Proof.
  intros Hu.
  rewrite <- (settled_with_Unsettled (handle request env ctx w).2).
  change (settled_with _ _) with (observation w (handle request env ctx w)).1.
  destruct (JsString.startsWith "/api/" (pathname u)) eqn:Hp.
  - rewrite (observe_api new_URL createApp reason_phrase request env ctx w u Hu Hp).
    unfold dispatch, dispatch_steps.
    destruct (createApp env) as [app|e]; simpl; [|done].
    by destruct (App_fetch app request env ctx) as [[r|[r|e|]]|e].
  - rewrite (observe_asset new_URL createApp reason_phrase request env ctx w u Hu Hp).
    by destruct (Fetcher_fetch (ASSETS env) request) as [[r|e|]|e].
Qed.

(** X4.  Where the handler builds no response from another one, it raises
    no error of its own and never replaces one.  Under [/api/] its promise
    rejects with [e] exactly when the promise [app.fetch(...)] returned
    rejects with [e]: a throw of [createApp] or of [app.fetch] never gets
    out.  Outside [/api/], when the store's response is not HTML, its
    promise rejects with [e] exactly when [env.ASSETS.fetch] threw [e] or
    returned a promise rejecting with [e]. *)
Theorem no_error_of_its_own request env ctx w u e :
  new_URL (url request) = Normal u →
  ((∃ rest, pathname u = "/api/" +:+ rest) →
     ((handle request env ctx w).1 = Rejected e ↔
      dispatch createApp request env ctx = Normal (Thenable (Rejected e)))) ∧
  ((¬ ∃ rest, pathname u = "/api/" +:+ rest) →
     (∀ r, Fetcher_fetch (ASSETS env) request = Normal (Fulfilled r) →
           ¬ ∃ ct a b, Headers.get "content-type" (headers r) = Some ct ∧
                       ct = a +:+ "text/html" +:+ b) →
     ((handle request env ctx w).1 = Rejected e ↔
      Fetcher_fetch (ASSETS env) request = Throw e ∨
      Fetcher_fetch (ASSETS env) request = Normal (Rejected e))).
Proof.
  intros Hu. split.
  - intros Hp%startsWith_spec.
    rewrite <- (settled_with_Rejected (handle request env ctx w).2).
    change (settled_with _ _) with (observation w (handle request env ctx w)).1.
    rewrite (observe_api new_URL createApp reason_phrase request env ctx w u Hu Hp).
    unfold dispatch, dispatch_steps.
    destruct (createApp env) as [app|e0]; simpl; [|done].
    destruct (App_fetch app request env ctx) as [[r|[r|e0|]]|e0]; simpl;
      split; congruence.
  - intros Hp%startsWith_false Hplain.
    rewrite <- (settled_with_Rejected (handle request env ctx w).2).
    change (settled_with _ _) with (observation w (handle request env ctx w)).1.
    rewrite (observe_asset new_URL createApp reason_phrase request env ctx w u Hu Hp).
    destruct (Fetcher_fetch (ASSETS env) request) as [[r|e0|]|e0]; simpl;
      (split;
       [ intros H; first [discriminate H | injection H as ->; auto]
       | intros [?|?]; congruence ]).
Qed.

(** X5.  A response of the sub-application is passed on as it is, whatever
    its status or content type: the handler returns the reference
    [app.fetch] handed out and leaves the world as that call left it.  No
    policy header is added on this path, also not to an HTML response. *)
Theorem api_response_is_passed_on request env ctx w u app r :
  new_URL (url request) = Normal u →
  (∃ rest, pathname u = "/api/" +:+ rest) →
  createApp env = Normal app →
  App_fetch app request env ctx = Normal (Plain r) ∨
  App_fetch app request env ctx = Normal (Thenable (Fulfilled r)) →
  ∃ l a w0 w1,
    call_createApp createApp env w = (Ret app, w0) ∧
    call_App_fetch app request env ctx w0 = (Ret a, w1) ∧
    (a = Plain l ∨ a = Thenable (Fulfilled l)) ∧
    handle request env ctx w = (Fulfilled l, w1) ∧
    heap w1 !! l = Some r.
Proof.
  intros Hu Hp%startsWith_spec Hc Ha.
  exists (fresh (dom (heap w))).
  destruct Ha as [Ha|Ha].
  - rewrite (run_api_plain new_URL createApp reason_phrase request env ctx w u Hu Hp app Hc r Ha).
    eexists _, _, _. split; [|split; [|split; [by left|split]]].
    + unfold call_createApp, mbind, Run_bind, emit, eval. simpl. by rewrite Hc.
    + unfold call_App_fetch, hand_out, mbind, mret, Run_bind, Run_ret, emit,
        eval, alloc. simpl. rewrite Ha. simpl. reflexivity.
    + by rewrite <- app_assoc.
    + apply lookup_insert_eq.
  - rewrite (run_api_fulfilled new_URL createApp reason_phrase request env ctx w u Hu Hp app Hc r Ha).
    eexists _, _, _. split; [|split; [|split; [by right|split]]].
    + unfold call_createApp, mbind, Run_bind, emit, eval. simpl. by rewrite Hc.
    + unfold call_App_fetch, hand_out, settle_in_store, mbind, mret, Run_bind,
        Run_ret, emit, eval, alloc. simpl. rewrite Ha. simpl. reflexivity.
    + by rewrite <- app_assoc.
    + apply lookup_insert_eq.
Qed.

(** X7.  Rewriting is idempotent.  When the asset store serves an HTML
    response and the handler's answer to it is served again on the asset
    path (in any world, by any store), the second answer is equal to the
    first: the rewritten response is still HTML, and setting the policy
    header a second time changes nothing. *)
Theorem rewriting_again_changes_nothing
    request env env' ctx ctx' w w' u r ct a b r' :
  new_URL (url request) = Normal u →
  (¬ ∃ rest, pathname u = "/api/" +:+ rest) →
  Fetcher_fetch (ASSETS env) request = Normal (Fulfilled r) →
  Headers.get "content-type" (headers r) = Some ct →
  ct = a +:+ "text/html" +:+ b →
  (observation w (handle request env ctx w)).1 = Fulfilled (Some r') →
  Fetcher_fetch (ASSETS env') request = Normal (Fulfilled r') →
  (observation w' (handle request env' ctx' w')).1 = Fulfilled (Some r').
Proof.
  intros Hu Hp%startsWith_false Ha Hget Hct Hfirst Ha'.
  assert (optional_includes "text/html"
            (Headers.get "content-type" (headers r)) = true) as Hhtml.
  { apply optional_includes_spec. by exists ct, a, b. }
  rewrite (observe_asset new_URL createApp reason_phrase request env ctx w u Hu Hp) in Hfirst.
  rewrite Ha, Hhtml in Hfirst. simpl in Hfirst. injection Hfirst as <-.
  rewrite (observe_asset new_URL createApp reason_phrase request env' ctx' w' u Hu Hp).
  rewrite Ha'. simpl.
  rewrite HeadersFacts.get_set_other by reflexivity. rewrite Hhtml.
  unfold with_headers. simpl. by rewrite set_idem.
Qed.

(** X8.  The content type is found whatever the letter case of the header
    name, and among several headers of that name: when any header of the
    store's response whose name is [content-type] up to case has a value
    containing [text/html], the response is rewritten and carries the
    policy header. *)
Theorem any_html_content_type_header_counts request env ctx w u r k v a b :
  new_URL (url request) = Normal u →
  (¬ ∃ rest, pathname u = "/api/" +:+ rest) →
  Fetcher_fetch (ASSETS env) request = Normal (Fulfilled r) →
  (k, v) ∈ headers r →
  JsString.toLowerCase k = "content-type" →
  v = a +:+ "text/html" +:+ b →
  ∃ l r',
    (handle request env ctx w).1 = Fulfilled l ∧
    heap (handle request env ctx w).2 !! l = Some r' ∧
    Headers.get "Content-Security-Policy" (headers r') = Some CSP_VALUE.
Proof.
  intros Hu Hp%startsWith_false Ha Hin Hk Hv.
  assert (Headers.same_name "content-type" k = true) as Hn.
  { apply HeadersFacts.same_name_true. by rewrite Hk. }
  destruct (get_contains "content-type" k v (headers r) Hin Hn)
    as (s & a' & b' & Hget & Hs).
  assert (optional_includes "text/html"
            (Headers.get "content-type" (headers r)) = true) as Hhtml.
  { apply optional_includes_spec. exists s, (a' +:+ a), (b +:+ b').
    split; [done|]. by rewrite Hs, Hv, !append_assoc. }
  rewrite (run_asset_html new_URL createApp reason_phrase request env ctx w u Hu Hp r Ha Hhtml).
  eexists _, _. split; [done|]. split; [apply lookup_insert_eq|].
  apply HeadersFacts.get_set_same.
Qed.

End further.

(** * The further properties at sample inputs *)

(** X1 at a string that is no URL. *)
Lemma unparseable_URL_rejects_before_any_call_witness :
  (worker_fetch sample_new_URL (λ _, Normal sample_app) sample_reason_phrase
     (sample_request "index.html") (sample_env sample_script)
     sample_ctx empty_world).1 = Rejected (js_error "TypeError" "Invalid URL") ∧
  emitted empty_world
    (worker_fetch sample_new_URL (λ _, Normal sample_app) sample_reason_phrase
       (sample_request "index.html") (sample_env sample_script)
       sample_ctx empty_world).2 = [] ∧
  heap (worker_fetch sample_new_URL (λ _, Normal sample_app) sample_reason_phrase
          (sample_request "index.html") (sample_env sample_script)
          sample_ctx empty_world).2 = heap empty_world.
Proof.
  apply (unparseable_URL_rejects_before_any_call sample_new_URL
           (λ _, Normal sample_app) sample_reason_phrase).
  reflexivity.
Defined.

(** X2 at [/index.html] with an asset store whose [fetch] throws. *)
Lemma asset_failure_is_not_caught_witness :
  let env := {| ASSETS := {| Fetcher_fetch := λ _, Throw boom |} |} in
  let request := sample_request "https://vibe.example/index.html" in
  let out := worker_fetch sample_new_URL (λ _, Normal sample_app) sample_reason_phrase
               request env sample_ctx empty_world in
  out.1 = Rejected boom ∧
  emitted empty_world out.2 = [ASSETS_fetch_called request] ∧
  heap out.2 = heap empty_world.
Proof.
  intros env request out.
  apply (asset_failure_is_not_caught sample_new_URL (λ _, Normal sample_app) sample_reason_phrase
           request env sample_ctx empty_world
           {| href := "https://vibe.example/index.html"; pathname := "/index.html" |}).
  - reflexivity.
  - intros [rest E]. discriminate E.
  - left. reflexivity.
Defined.

(** X3 at [/index.html] with an asset store whose promise never settles. *)
Lemma unsettled_only_with_the_collaborator_witness :
  (worker_fetch sample_new_URL (λ _, Normal sample_app) sample_reason_phrase
     (sample_request "https://vibe.example/index.html")
     {| ASSETS := {| Fetcher_fetch := λ _, Normal Unsettled |} |}
     sample_ctx empty_world).1 = Unsettled.
Proof.
  apply (unsettled_only_with_the_collaborator sample_new_URL
           (λ _, Normal sample_app) sample_reason_phrase
           (sample_request "https://vibe.example/index.html")
           {| ASSETS := {| Fetcher_fetch := λ _, Normal Unsettled |} |}
           sample_ctx empty_world
           {| href := "https://vibe.example/index.html"; pathname := "/index.html" |}).
  - reflexivity.
  - reflexivity.
Defined.

(** X4 at [/api/agent] with a sub-application whose [fetch] throws: the
    handler's promise does not reject. *)
Lemma no_error_of_its_own_witness :
  (worker_fetch sample_new_URL (λ _, Normal throwing_app) sample_reason_phrase
     (sample_request "https://vibe.example/api/agent")
     (sample_env sample_script) sample_ctx empty_world).1 ≠ Rejected boom.
Proof.
  assert (sample_new_URL "https://vibe.example/api/agent" =
            Normal {| href := "https://vibe.example/api/agent";
                      pathname := "/api/agent" |}) as Hu by reflexivity.
  destruct (no_error_of_its_own sample_new_URL (λ _, Normal throwing_app)
              sample_reason_phrase
              (sample_request "https://vibe.example/api/agent")
              (sample_env sample_script) sample_ctx empty_world _ boom Hu)
    as [Hapi _].
  intros Hrej. apply Hapi in Hrej; [discriminate Hrej | by exists "agent"].
Defined.

(** X5 at [/api/agent] with a sub-application that answers with an HTML
    page: the page comes back without a policy header. *)
Lemma api_response_is_passed_on_witness :
  let app := {| App_fetch := λ _ _ _, Normal (Plain (sample_asset "text/html")) |} in
  let request := sample_request "https://vibe.example/api/agent" in
  ∃ l a w0 w1,
    call_createApp (λ _, Normal app) (sample_env sample_script) empty_world
      = (Ret app, w0) ∧
    call_App_fetch app request (sample_env sample_script) sample_ctx w0
      = (Ret a, w1) ∧
    (a = Plain l ∨ a = Thenable (Fulfilled l)) ∧
    worker_fetch sample_new_URL (λ _, Normal app) sample_reason_phrase request
      (sample_env sample_script) sample_ctx empty_world = (Fulfilled l, w1) ∧
    heap w1 !! l = Some (sample_asset "text/html").
Proof.
  intros app request.
  apply (api_response_is_passed_on sample_new_URL (λ _, Normal app) sample_reason_phrase request
           (sample_env sample_script) sample_ctx empty_world
           {| href := "https://vibe.example/api/agent"; pathname := "/api/agent" |}).
  - reflexivity.
  - by exists "agent".
  - reflexivity.
  - left. reflexivity.
Defined.

(** X7 at [/index.html]: the rewritten page served once more. *)
Lemma rewriting_again_changes_nothing_witness :
  let request := sample_request "https://vibe.example/index.html" in
  let r := sample_asset "text/html" in
  let r' := with_headers (Headers.set CSP_NAME CSP_VALUE) r in
  (observation empty_world
     (worker_fetch sample_new_URL (λ _, Normal sample_app) sample_reason_phrase request
        (sample_env r') (execution_context 1) empty_world)).1
    = Fulfilled (Some r').
Proof.
  intros request r r'.
  apply (rewriting_again_changes_nothing sample_new_URL (λ _, Normal sample_app) sample_reason_phrase
           request (sample_env r) (sample_env r') sample_ctx (execution_context 1)
           empty_world empty_world
           {| href := "https://vibe.example/index.html"; pathname := "/index.html" |}
           r "text/html" "" "" r').
  - reflexivity.
  - intros [rest E]. discriminate E.
  - reflexivity.
  - reflexivity.
  - reflexivity.
  - vm_compute. reflexivity.
  - reflexivity.
Defined.

(** X8 with a header spelled [CONTENT-TYPE]. *)
Lemma any_html_content_type_header_counts_witness :
  let r := {| status := 200; statusText := "OK";
              headers := [("CONTENT-TYPE", "text/html")];
              body := Some (stream_of "<html>...") |} in
  ∃ l r',
    (worker_fetch sample_new_URL (λ _, Normal sample_app) sample_reason_phrase
       (sample_request "https://vibe.example/index.html")
       (sample_env r) sample_ctx empty_world).1 = Fulfilled l ∧
    heap (worker_fetch sample_new_URL (λ _, Normal sample_app) sample_reason_phrase
            (sample_request "https://vibe.example/index.html")
            (sample_env r) sample_ctx empty_world).2 !! l = Some r' ∧
    Headers.get "Content-Security-Policy" (headers r') = Some CSP_VALUE.
Proof.
  intros r.
  apply (any_html_content_type_header_counts sample_new_URL
           (λ _, Normal sample_app) sample_reason_phrase
           (sample_request "https://vibe.example/index.html")
           (sample_env r) sample_ctx empty_world
           {| href := "https://vibe.example/index.html"; pathname := "/index.html" |}
           r "CONTENT-TYPE" "text/html" "" "").
  - reflexivity.
  - intros [rest E]. discriminate E.
  - reflexivity.
  - left.
  - reflexivity.
  - reflexivity.
Defined.
